(** * Retry policies of gax (src/gax/retry_policy.h)

    A shallow embedding of the two retry policies of [google::gax] and of
    the [RetryPolicy] interface they implement, followed by the properties
    of their retry decisions.

    Modelling decisions, each taken from the source:

    - [int] is the 32-bit signed integer of the supported platforms: a
      [Z] within [INT_MIN, INT_MAX].  The increment of the failure counter
      is given its two's complement result, [INT_MAX + 1] wrapping to
      [INT_MIN], which is what the compiled increment computes (the C++
      standard leaves signed overflow undefined).
    - [StatusType] and [RetryablePolicy] are template parameters: a type
      and a classifier [IsPermanentFailure : StatusType -> bool].
    - [Clock] is a template parameter with a static [now()].  The reading
      the clock gives during a call is an explicit argument [now] of the
      operations that can read it.  [deadline_] is a
      [std::chrono::system_clock::time_point], so the readings are time
      points of that clock: 64-bit signed counts of nanosecond ticks.
      [max_duration_] is a [std::chrono::milliseconds]: a 64-bit signed
      count of milliseconds.  Their sum converts the milliseconds to
      ticks and adds the counts, both in 64 bits and, like the counter,
      with the two's complement result.
    - Policies are objects handled through [std::unique_ptr<RetryPolicy>]:
      a heap maps addresses to objects, [new] takes an address no live
      object has, and the two virtual functions dispatch on the dynamic
      type of the object. *)

From Stdlib Require Import ZArith Bool List Lia.
From stdpp Require Import base option list gmap.

Local Open Scope Z_scope.

(** ** The C++ type [int] *)

Module Int.

Definition INT_MAX : Z := 2147483647.
Definition INT_MIN : Z := -2147483648.

Definition in_range (x : Z) : Prop := INT_MIN <= x <= INT_MAX.

(** The [int] that holds [z] modulo [2^32]. *)
Definition wrap (z : Z) : Z := (z + 2147483648) mod 4294967296 - 2147483648.

(** [x++] on an [int] lvalue holding [x]: the value of the expression
    (the old [x]) and the value stored back. *)
Definition post_increment (x : Z) : Z * Z := (x, wrap (x + 1)).

End Int.

(** ** The std::chrono types of the header *)

Module Chrono.

(** Counts are 64-bit signed integers. *)
Definition INT64_MAX : Z := 9223372036854775807.
Definition INT64_MIN : Z := -9223372036854775808.

Definition in_range (x : Z) : Prop := INT64_MIN <= x <= INT64_MAX.

(** The 64-bit count that holds [z] modulo [2^64]. *)
Definition wrap (z : Z) : Z :=
  (z + 9223372036854775808) mod 18446744073709551616 - 9223372036854775808.

(** [system_clock::duration] is [std::chrono::nanoseconds]: a millisecond
    is this many ticks of the clock. *)
Definition ticks_per_ms : Z := 1000000.

(** The length of [n] milliseconds in ticks, as an integer. *)
Definition ms (n : Z) : Z := n * ticks_per_ms.

(** The conversion of a [std::chrono::milliseconds] to the clock's
    duration, which the sum of a duration and a time point applies first:
    the count is multiplied by the ratio of the periods in 64 bits. *)
Definition to_ticks (d : Z) : Z := wrap (d * ticks_per_ms).

(** [d + tp] for [d : std::chrono::milliseconds] and [tp] a time point of
    the clock: the counts are added in 64 bits. *)
Definition plus (d tp : Z) : Z := wrap (to_ticks d + tp).

End Chrono.

(** ** LimitedErrorCountRetryPolicy: "count errors and then stop" *)

Module LimitedErrorCountRetryPolicy.

Record t : Type := mk {
  failure_count_ : Z;   (* int failure_count_; *)
  max_failures_ : Z     (* int const max_failures_; *)
}.

(** [LimitedErrorCountRetryPolicy(int max_failures)
      : failure_count_(0), max_failures_(max_failures) {}] *)
Definition ctor (max_failures : Z) : t :=
  {| failure_count_ := 0; max_failures_ := max_failures |}.

(** The copy constructor delegates to [ctor] with [rhs.max_failures_]. *)
Definition copy_ctor (rhs : t) : t := ctor (max_failures_ rhs).

(** The move constructor does the same. *)
Definition move_ctor (rhs : t) : t := ctor (max_failures_ rhs).

Section Methods.
Context {StatusType : Type}.
Variable IsPermanentFailure : StatusType -> bool.

(** [return (!RetryablePolicy::IsPermanentFailure(status) &&
             (failure_count_++) < max_failures_);]
    The right operand of [&&] is evaluated only when the left one is true. *)
Definition OnFailure (this : t) (status : StatusType) : bool * t :=
  if negb (IsPermanentFailure status) then
    let (old, new) := Int.post_increment (failure_count_ this) in
    (old <? max_failures_ this,
     {| failure_count_ := new; max_failures_ := max_failures_ this |})
  else (false, this).

(** Successive calls of [OnFailure] on one object, one per status, with
    the results in call order. *)
Fixpoint OnFailure_seq (this : t) (statuses : list StatusType)
  : list bool * t :=
  match statuses with
  | [] => ([], this)
  | status :: rest =>
      let (r, this') := OnFailure this status in
      let (rs, this'') := OnFailure_seq this' rest in
      (r :: rs, this'')
  end.

End Methods.

End LimitedErrorCountRetryPolicy.

(** ** LimitedDurationRetryPolicy: "keep trying for this time" *)

Module LimitedDurationRetryPolicy.

Record t : Type := mk {
  max_duration_ : Z;   (* std::chrono::milliseconds const max_duration_; *)
  deadline_ : Z        (* std::chrono::system_clock::time_point const deadline_; *)
}.

(** [LimitedDurationRetryPolicy(duration_t max_duration)
      : max_duration_(max_duration), deadline_(max_duration_ + Clock::now()) {}]
    with [max_duration] in milliseconds and [now] in ticks. *)
Definition ctor (now : Z) (max_duration : Z) : t :=
  {| max_duration_ := max_duration; deadline_ := Chrono.plus max_duration now |}.

(** The copy constructor delegates to [ctor] with [rhs.max_duration_]:
    the clock is read again. *)
Definition copy_ctor (now : Z) (rhs : t) : t := ctor now (max_duration_ rhs).

Definition move_ctor (now : Z) (rhs : t) : t := ctor now (max_duration_ rhs).

Section Methods.
Context {StatusType : Type}.
Variable IsPermanentFailure : StatusType -> bool.

(** [return (!RetryablePolicy::IsPermanentFailure(status) &&
             Clock::now() < deadline_);]
    Both members are [const]: the call writes nothing. *)
Definition OnFailure (now : Z) (this : t) (status : StatusType) : bool :=
  if negb (IsPermanentFailure status) then now <? deadline_ this else false.

End Methods.

End LimitedDurationRetryPolicy.

Module LEC := LimitedErrorCountRetryPolicy.
Module LD := LimitedDurationRetryPolicy.

(** ** The RetryPolicy interface and the objects behind it *)

(** The dynamic type of an object handled as [RetryPolicy]: one of the two
    classes of the header. *)
Inductive RetryPolicy : Type :=
  | ErrorCount (p : LEC.t)
  | Duration (p : LD.t).

(** Addresses of live objects, and the objects they hold. *)
Definition addr : Type := positive.
Abbreviation heap := (gmap addr RetryPolicy).

(** [new T(...)]: the object is placed at an address that holds no live
    object. *)
Definition alloc (h : heap) (o : RetryPolicy) : addr * heap :=
  let l := fresh (dom h) in (l, <[l := o]> h).

(** [new LimitedErrorCountRetryPolicy<...>(max_failures)].  The
    constructor has no failure path. *)
Definition new_LimitedErrorCountRetryPolicy (max_failures : Z) (h : heap)
  : option (addr * heap) :=
  Some (alloc h (ErrorCount (LEC.ctor max_failures))).

(** [new LimitedDurationRetryPolicy<...>(max_duration)], the clock
    reading [now] during the construction. *)
Definition new_LimitedDurationRetryPolicy (now : Z) (max_duration : Z) (h : heap)
  : option (addr * heap) :=
  Some (alloc h (Duration (LD.ctor now max_duration))).

Section Interface.
Context {StatusType : Type}.
Variable IsPermanentFailure : StatusType -> bool.

(** [this->clone()]: a new object copy-constructed from [*this]; [this]
    is [const] there.  Calling through a pointer to no live object is
    undefined. *)
Definition clone (now : Z) (this : addr) (h : heap) : option (addr * heap) :=
  match h !! this with
  | Some (ErrorCount p) => Some (alloc h (ErrorCount (LEC.copy_ctor p)))
  | Some (Duration p) => Some (alloc h (Duration (LD.copy_ctor now p)))
  | None => None
  end.

(** [this->OnFailure(status)], the clock reading [now] during the call. *)
Definition OnFailure (now : Z) (this : addr) (status : StatusType) (h : heap)
  : option (bool * heap) :=
  match h !! this with
  | Some (ErrorCount p) =>
      let (r, p') := LEC.OnFailure IsPermanentFailure p status in
      Some (r, <[this := ErrorCount p']> h)
  | Some (Duration p) => Some (LD.OnFailure IsPermanentFailure now p status, h)
  | None => None
  end.

(** What a client can do with the policies it holds. *)
Inductive call : Type :=
  | CallNewErrorCount (max_failures : Z)
  | CallNewDuration (max_duration : Z)
  | CallClone (this : addr)
  | CallOnFailure (this : addr) (status : StatusType).

Definition exec (now : Z) (c : call) (h : heap) : option heap :=
  match c with
  | CallNewErrorCount m => snd <$> new_LimitedErrorCountRetryPolicy m h
  | CallNewDuration d => snd <$> new_LimitedDurationRetryPolicy now d h
  | CallClone this => snd <$> clone now this h
  | CallOnFailure this status => snd <$> OnFailure now this status h
  end.

(** A run of calls, each with the clock reading during it. *)
Fixpoint exec_all (calls : list (Z * call)) (h : heap) : option heap :=
  match calls with
  | [] => Some h
  | (now, c) :: rest =>
      match exec now c h with
      | Some h' => exec_all rest h'
      | None => None
      end
  end.

(** Successive [OnFailure] calls through one pointer, each status with the
    clock reading during its call. *)
Fixpoint OnFailure_calls (this : addr) (calls : list (Z * StatusType)) (h : heap)
  : option (list bool * heap) :=
  match calls with
  | [] => Some ([], h)
  | (now, status) :: rest =>
      match OnFailure now this status h with
      | Some (r, h') =>
          match OnFailure_calls this rest h' with
          | Some (rs, h'') => Some (r :: rs, h'')
          | None => None
          end
      | None => None
      end
  end.

End Interface.

(** ** A sample instantiation of the template parameters *)

Module Sample.

(** A status is either retry-eligible or not; the classifier reads it off. *)
Inductive Status : Type := Transient | Permanent.

Definition IsPermanentFailure (s : Status) : bool :=
  match s with
  | Permanent => true
  | Transient => false
  end.

End Sample.

(** ** Vocabulary of the statements *)

(** The answers of a run of [n] transient failures that starts with
    [budget] retries left: yes while the budget lasts, then no. *)
Definition transient_answers (budget : Z) (n : nat) : list bool :=
  replicate (Nat.min n (Z.to_nat budget)) true ++
  replicate (n - Z.to_nat budget) false.

Section Runs.
Context {StatusType : Type}.
Variable IsPermanentFailure : StatusType -> bool.

(** The number of calls in a run that reach the counter. *)
Definition transient_calls (statuses : list StatusType) : nat :=
  length (List.filter (fun s => negb (IsPermanentFailure s)) statuses).

End Runs.

(** ** Vocabulary of the further properties *)

(** The number of retries a run granted: its yes answers. *)
Definition retries_granted (answers : list bool) : nat :=
  length (List.filter (fun r : bool => r) answers).

(** Two objects of the same class with the same retry criteria: the same
    [max_failures_], or the same [max_duration_] and [deadline_]. *)
Definition same_criteria (o o' : RetryPolicy) : Prop :=
  match o, o' with
  | ErrorCount p, ErrorCount p' => LEC.max_failures_ p = LEC.max_failures_ p'
  | Duration p, Duration p' => p = p'
  | _, _ => False
  end.

Section MixedRuns.
Context {StatusType : Type}.
Variable IsPermanentFailure : StatusType -> bool.

(** The transient failures of a run, in order. *)
Definition transient_only (statuses : list StatusType) : list StatusType :=
  List.filter (fun s => negb (IsPermanentFailure s)) statuses.

(** The answers a run gave to its transient failures, in order. *)
Definition answers_to_transient (answers : list bool) (statuses : list StatusType)
  : list bool :=
  map fst (List.filter (fun rs => negb (IsPermanentFailure (snd rs)))
                       (combine answers statuses)).

End MixedRuns.

(** * Properties *)

(** ** The C++ type [int] *)

(** Linear goals over the bounds of [int]. *)
Ltac int_lia :=
  unfold Int.in_range, Int.INT_MIN, Int.INT_MAX in *; lia.

Lemma wrap_in_range (z : Z) : Int.in_range z -> Int.wrap z = z.
Proof.
  unfold Int.wrap. intros Hz. rewrite Z.mod_small; int_lia.
Qed.

Lemma wrap_range (z : Z) : Int.in_range (Int.wrap z).
Proof.
  unfold Int.wrap.
  pose proof (Z.mod_pos_bound (z + 2147483648) 4294967296). int_lia.
Qed.

Lemma wrap_overflow : Int.wrap (Int.INT_MAX + 1) = Int.INT_MIN.
Proof. reflexivity. Qed.

(** ** The std::chrono types *)

(** Linear goals over the bounds of the 64-bit counts. *)
Ltac chrono_lia :=
  unfold Chrono.in_range, Chrono.INT64_MIN, Chrono.INT64_MAX,
         Chrono.ms, Chrono.ticks_per_ms in *; lia.

Lemma chrono_wrap_in_range (z : Z) : Chrono.in_range z -> Chrono.wrap z = z.
Proof. unfold Chrono.wrap. intros Hz. rewrite Z.mod_small; chrono_lia. Qed.

(** A sum whose parts fit is the integer sum. *)
Lemma chrono_plus_exact (d tp : Z) :
  Chrono.in_range (Chrono.ms d) ->
  Chrono.in_range (Chrono.ms d + tp) ->
  Chrono.plus d tp = Chrono.ms d + tp.
Proof.
  intros Hd Hsum. unfold Chrono.plus, Chrono.to_ticks.
  fold (Chrono.ms d). now rewrite (chrono_wrap_in_range _ Hd), chrono_wrap_in_range.
Qed.

(** A policy constructed with a duration that fits, at a reading from
    which the deadline fits. *)
Lemma LD_ctor_exact (now max_duration : Z) :
  Chrono.in_range (Chrono.ms max_duration) ->
  Chrono.in_range (Chrono.ms max_duration + now) ->
  LD.ctor now max_duration = LD.mk max_duration (Chrono.ms max_duration + now).
Proof. intros Hd Hsum. unfold LD.ctor. now rewrite chrono_plus_exact. Qed.

(** ** One call of LimitedErrorCountRetryPolicy::OnFailure *)

Section ErrorCountCall.
Context {StatusType : Type}.
Variable IsPermanentFailure : StatusType -> bool.

(** A permanent failure short-circuits: the answer is no and the object
    is not written. *)
Lemma LEC_OnFailure_permanent (this : LEC.t) (status : StatusType) :
  IsPermanentFailure status = true ->
  LEC.OnFailure IsPermanentFailure this status = (false, this).
Proof. intros Hp. unfold LEC.OnFailure. now rewrite Hp. Qed.

(** A transient failure compares the old count and stores the next one. *)
Lemma LEC_OnFailure_transient (this : LEC.t) (status : StatusType) :
  IsPermanentFailure status = false ->
  LEC.OnFailure IsPermanentFailure this status =
    (LEC.failure_count_ this <? LEC.max_failures_ this,
     LEC.mk (Int.wrap (LEC.failure_count_ this + 1)) (LEC.max_failures_ this)).
Proof. intros Ht. unfold LEC.OnFailure, Int.post_increment. now rewrite Ht. Qed.

(** No call writes [max_failures_]. *)
Lemma LEC_OnFailure_max_failures (this : LEC.t) (status : StatusType) :
  LEC.max_failures_ (snd (LEC.OnFailure IsPermanentFailure this status)) =
  LEC.max_failures_ this.
Proof.
  unfold LEC.OnFailure, Int.post_increment.
  now destruct (IsPermanentFailure status).
Qed.

Lemma LEC_OnFailure_seq_cons (this : LEC.t) (s : StatusType) (rest : list StatusType) :
  LEC.OnFailure_seq IsPermanentFailure this (s :: rest) =
    (fst (LEC.OnFailure IsPermanentFailure this s)
       :: fst (LEC.OnFailure_seq IsPermanentFailure
                 (snd (LEC.OnFailure IsPermanentFailure this s)) rest),
     snd (LEC.OnFailure_seq IsPermanentFailure
            (snd (LEC.OnFailure IsPermanentFailure this s)) rest)).
Proof.
  cbn [LEC.OnFailure_seq].
  destruct (LEC.OnFailure IsPermanentFailure this s) as [r this'].
  cbn [fst snd].
  now destruct (LEC.OnFailure_seq IsPermanentFailure this' rest).
Qed.

Lemma LEC_OnFailure_seq_app (this : LEC.t) (xs ys : list StatusType) :
  LEC.OnFailure_seq IsPermanentFailure this (xs ++ ys) =
    (fst (LEC.OnFailure_seq IsPermanentFailure this xs)
       ++ fst (LEC.OnFailure_seq IsPermanentFailure
                 (snd (LEC.OnFailure_seq IsPermanentFailure this xs)) ys),
     snd (LEC.OnFailure_seq IsPermanentFailure
            (snd (LEC.OnFailure_seq IsPermanentFailure this xs)) ys)).
Proof.
  revert this. induction xs as [|x xs IH]; intros this.
  - cbn [app LEC.OnFailure_seq fst snd].
    now destruct (LEC.OnFailure_seq IsPermanentFailure this ys).
  - rewrite <- app_comm_cons, !LEC_OnFailure_seq_cons, IH. reflexivity.
Qed.

Lemma LEC_OnFailure_seq_length (statuses : list StatusType) (this : LEC.t) :
  length (fst (LEC.OnFailure_seq IsPermanentFailure this statuses)) =
  length statuses.
Proof.
  revert this. induction statuses as [|s rest IH]; intros this; [reflexivity|].
  rewrite LEC_OnFailure_seq_cons. cbn [fst length]. now rewrite IH.
Qed.

Lemma transient_answers_S (budget : Z) (n : nat) :
  transient_answers budget (S n) =
    (0 <? budget) :: transient_answers (budget - 1) n.
Proof.
  unfold transient_answers. destruct (Z.ltb_spec 0 budget) as [Hpos|Hneg].
  - replace (Z.to_nat budget) with (S (Z.to_nat (budget - 1))) by lia.
    reflexivity.
  - replace (Z.to_nat budget) with 0%nat by lia.
    replace (Z.to_nat (budget - 1)) with 0%nat by lia.
    rewrite !Nat.min_0_r, !Nat.sub_0_r. reflexivity.
Qed.

(** A run of transient failures, up to and including the call whose
    increment leaves [INT_MAX]: the answers follow the budget, and the
    count is the number of calls, as an [int]. *)
Lemma LEC_OnFailure_seq_transient (statuses : list StatusType) (this : LEC.t) :
  Forall (fun s => IsPermanentFailure s = false) statuses ->
  Int.in_range (LEC.failure_count_ this) ->
  LEC.failure_count_ this + Z.of_nat (length statuses) <= Int.INT_MAX + 1 ->
  LEC.OnFailure_seq IsPermanentFailure this statuses =
    (transient_answers (LEC.max_failures_ this - LEC.failure_count_ this)
                       (length statuses),
     LEC.mk (Int.wrap (LEC.failure_count_ this + Z.of_nat (length statuses)))
            (LEC.max_failures_ this)).
Proof.
  revert this. induction statuses as [|s rest IH]; intros [c m] Hall Hc Hlen;
    cbn [length LEC.failure_count_ LEC.max_failures_] in *.
  - cbn [LEC.OnFailure_seq]. rewrite Z.add_0_r, wrap_in_range by assumption.
    reflexivity.
  - apply Forall_cons in Hall as [Hs Hrest].
    rewrite LEC_OnFailure_seq_cons, LEC_OnFailure_transient by assumption.
    cbn [fst snd LEC.failure_count_ LEC.max_failures_].
    rewrite transient_answers_S.
    assert (Hhead : (c <? m) = (0 <? m - c)).
    { destruct (Z.ltb_spec c m), (Z.ltb_spec 0 (m - c)); (reflexivity || lia). }
    destruct rest as [|s' rest'].
    + cbn [LEC.OnFailure_seq fst snd length]. rewrite Hhead.
      do 3 f_equal.
    + assert (Hlt : c < Int.INT_MAX) by (cbn [length] in Hlen; lia).
      assert (Hc1 : Int.in_range (c + 1)) by int_lia.
      rewrite (wrap_in_range (c + 1)) by assumption.
      rewrite IH by (cbn [LEC.failure_count_ LEC.max_failures_];
                     first [assumption | lia]).
      cbn [fst snd LEC.failure_count_ LEC.max_failures_]. rewrite Hhead.
      replace (m - (c + 1)) with (m - c - 1) by lia.
      replace (c + 1 + Z.of_nat (length (s' :: rest')))
        with (c + Z.of_nat (S (length (s' :: rest')))) by lia.
      reflexivity.
Qed.

(** A run without transient failures: every answer is no and the object
    is as before. *)
Lemma LEC_OnFailure_seq_permanent (statuses : list StatusType) (this : LEC.t) :
  transient_calls IsPermanentFailure statuses = 0%nat ->
  LEC.OnFailure_seq IsPermanentFailure this statuses =
    (replicate (length statuses) false, this).
Proof.
  unfold transient_calls.
  induction statuses as [|s rest IH]; intros Hnone; [reflexivity|].
  cbn [List.filter] in Hnone.
  destruct (IsPermanentFailure s) eqn:Hs; cbn [negb length] in Hnone;
    [|discriminate].
  rewrite LEC_OnFailure_seq_cons, LEC_OnFailure_permanent by assumption.
  cbn [fst snd]. now rewrite IH.
Qed.

(** Once the count has reached [max_failures_] every answer is no, for
    permanent and transient failures alike, up to and including the
    transient call whose increment leaves [INT_MAX]. *)
Lemma LEC_OnFailure_seq_exhausted (statuses : list StatusType) (this : LEC.t) :
  LEC.max_failures_ this <= LEC.failure_count_ this ->
  Int.in_range (LEC.failure_count_ this) ->
  LEC.failure_count_ this + Z.of_nat (transient_calls IsPermanentFailure statuses)
    <= Int.INT_MAX + 1 ->
  fst (LEC.OnFailure_seq IsPermanentFailure this statuses) =
    replicate (length statuses) false.
Proof.
  revert this. induction statuses as [|s rest IH]; intros [c m] Hm Hc Hlen;
    cbn [LEC.failure_count_ LEC.max_failures_] in *; [reflexivity|].
  rewrite LEC_OnFailure_seq_cons. cbn [fst length replicate].
  unfold transient_calls in Hlen. cbn [List.filter] in Hlen.
  destruct (IsPermanentFailure s) eqn:Hs; cbn [negb length] in Hlen.
  - rewrite LEC_OnFailure_permanent by assumption. cbn [fst snd].
    f_equal. apply IH; assumption.
  - rewrite LEC_OnFailure_transient by assumption.
    cbn [fst snd LEC.failure_count_ LEC.max_failures_].
    f_equal; [apply Z.ltb_ge; assumption|].
    destruct (Z.eq_dec c Int.INT_MAX) as [Hmax|Hnmax].
    + rewrite LEC_OnFailure_seq_permanent; [reflexivity|].
      unfold transient_calls. lia.
    + assert (Hc1 : Int.in_range (c + 1)) by int_lia.
      rewrite (wrap_in_range (c + 1)) by assumption.
      apply IH; cbn [LEC.failure_count_ LEC.max_failures_];
        [lia | assumption | unfold transient_calls; lia].
Qed.

End ErrorCountCall.

(** ** Objects and pointers *)

Lemma alloc_fresh (h : heap) (o : RetryPolicy) : h !! fst (alloc h o) = None.
Proof. apply (not_elem_of_dom (D := gset addr)), is_fresh. Qed.

Lemma alloc_heap (h : heap) (o : RetryPolicy) :
  snd (alloc h o) = <[fst (alloc h o) := o]> h.
Proof. reflexivity. Qed.

Lemma alloc_lookup_new (h : heap) (o : RetryPolicy) :
  snd (alloc h o) !! fst (alloc h o) = Some o.
Proof. rewrite alloc_heap. apply lookup_insert_eq. Qed.

(** [new] returns an address different from that of every live object. *)
Lemma alloc_distinct (h : heap) (o o' : RetryPolicy) (l : addr) :
  h !! l = Some o' -> fst (alloc h o) <> l.
Proof. intros Hl Heq. rewrite <- Heq, alloc_fresh in Hl. discriminate. Qed.

(** [new] leaves the live objects as they are. *)
Lemma alloc_lookup_old (h : heap) (o o' : RetryPolicy) (l : addr) :
  h !! l = Some o' -> snd (alloc h o) !! l = Some o'.
Proof.
  intros Hl. rewrite alloc_heap, lookup_insert_ne; [assumption|].
  eapply alloc_distinct, Hl.
Qed.

Section Pointers.
Context {StatusType : Type}.
Variable IsPermanentFailure : StatusType -> bool.

(** A call through a pointer to a count-limited policy is the call on the
    object, written back in place. *)
Lemma OnFailure_ErrorCount (now : Z) (this : addr) (status : StatusType)
      (h : heap) (p : LEC.t) :
  h !! this = Some (ErrorCount p) ->
  OnFailure IsPermanentFailure now this status h =
    Some (fst (LEC.OnFailure IsPermanentFailure p status),
          <[this := ErrorCount (snd (LEC.OnFailure IsPermanentFailure p status))]> h).
Proof.
  intros Hl. unfold OnFailure. rewrite Hl.
  now destruct (LEC.OnFailure IsPermanentFailure p status).
Qed.

(** A call through a pointer to a duration-limited policy writes nothing. *)
Lemma OnFailure_Duration (now : Z) (this : addr) (status : StatusType)
      (h : heap) (p : LD.t) :
  h !! this = Some (Duration p) ->
  OnFailure IsPermanentFailure now this status h =
    Some (LD.OnFailure IsPermanentFailure now p status, h).
Proof. intros Hl. unfold OnFailure. now rewrite Hl. Qed.

(** [OnFailure] writes to no object but its own. *)
Lemma OnFailure_other (now : Z) (this other : addr) (status : StatusType)
      (h h' : heap) (r : bool) :
  OnFailure IsPermanentFailure now this status h = Some (r, h') ->
  other <> this ->
  h' !! other = h !! other.
Proof.
  unfold OnFailure. intros Hcall Hne.
  destruct (h !! this) as [[p|p]|]; [| |discriminate].
  - destruct (LEC.OnFailure IsPermanentFailure p status) as [r' p'].
    injection Hcall as <- <-. now rewrite lookup_insert_ne.
  - now injection Hcall as <- <-.
Qed.

(** Successive calls through one pointer to a count-limited policy are
    the successive calls on the object. *)
Lemma OnFailure_calls_ErrorCount (this : addr) (calls : list (Z * StatusType))
      (h : heap) (p : LEC.t) :
  h !! this = Some (ErrorCount p) ->
  OnFailure_calls IsPermanentFailure this calls h =
    Some (fst (LEC.OnFailure_seq IsPermanentFailure p (map snd calls)),
          <[this := ErrorCount
                      (snd (LEC.OnFailure_seq IsPermanentFailure p (map snd calls)))]> h).
Proof.
  revert h p. induction calls as [|[now status] rest IH]; intros h p Hl.
  - cbn [OnFailure_calls map LEC.OnFailure_seq fst snd].
    now rewrite insert_id.
  - cbn [OnFailure_calls map snd].
    rewrite (OnFailure_ErrorCount _ _ _ _ _ Hl).
    rewrite (IH _ (snd (LEC.OnFailure IsPermanentFailure p status)))
      by apply lookup_insert_eq.
    rewrite LEC_OnFailure_seq_cons. cbn [fst snd].
    now rewrite insert_insert_eq.
Qed.

(** No call of the interface writes to a duration-limited policy or
    frees it. *)
Lemma exec_Duration_unchanged (now : Z) (c : call) (h h' : heap)
      (l : addr) (p : LD.t) :
  exec IsPermanentFailure now c h = Some h' ->
  h !! l = Some (Duration p) ->
  h' !! l = Some (Duration p).
Proof.
  intros Hexec Hl. destruct c as [m|d|this|this status]; cbn [exec] in Hexec.
  - injection Hexec as <-. cbn [snd]. now apply alloc_lookup_old.
  - injection Hexec as <-. cbn [snd]. now apply alloc_lookup_old.
  - unfold clone in Hexec.
    destruct (h !! this) as [[q|q]|]; [| |discriminate];
      injection Hexec as <-; now apply alloc_lookup_old.
  - destruct (OnFailure IsPermanentFailure now this status h) as [[r h'']|] eqn:Hcall;
      [|discriminate].
    injection Hexec as <-.
    destruct (decide (l = this)) as [->|Hne].
    + rewrite (OnFailure_Duration _ _ _ _ _ Hl) in Hcall.
      now injection Hcall as _ <-.
    + now rewrite (OnFailure_other _ _ _ _ _ _ _ Hcall Hne).
Qed.

Lemma exec_all_Duration_unchanged (calls : list (Z * call)) (h h' : heap)
      (l : addr) (p : LD.t) :
  exec_all IsPermanentFailure calls h = Some h' ->
  h !! l = Some (Duration p) ->
  h' !! l = Some (Duration p).
Proof.
  revert h. induction calls as [|[now c] rest IH]; intros h Hrun Hl;
    cbn [exec_all] in Hrun.
  - now injection Hrun as <-.
  - destruct (exec IsPermanentFailure now c h) as [h1|] eqn:Hexec; [|discriminate].
    eapply IH; [exact Hrun|]. eapply exec_Duration_unchanged; eassumption.
Qed.

End Pointers.

(** ** The counter past [INT_MAX] *)

Section Wrapped.
Context {StatusType : Type}.
Variable IsPermanentFailure : StatusType -> bool.

(** After [2^31] transient failures on a fresh policy the counter has
    wrapped to [INT_MIN]; the next call compares that with the limit. *)
Lemma LEC_OnFailure_after_wrap (max_failures : Z) (status : StatusType) :
  IsPermanentFailure status = false ->
  last (fst (LEC.OnFailure_seq IsPermanentFailure (LEC.ctor max_failures)
               (replicate (S (Z.to_nat (Int.INT_MAX + 1))) status))) =
    Some (Int.INT_MIN <? max_failures).
Proof.
  intros Ht.
  rewrite replicate_S_end, LEC_OnFailure_seq_app. cbn [fst].
  rewrite LEC_OnFailure_seq_transient.
  - cbn [snd LEC.ctor LEC.failure_count_ LEC.max_failures_].
    rewrite LEC_OnFailure_seq_cons, LEC_OnFailure_transient by assumption.
    cbn [fst snd LEC.OnFailure_seq LEC.failure_count_ LEC.max_failures_].
    rewrite last_snoc, length_replicate, Z2Nat.id, Z.add_0_l, wrap_overflow
      by int_lia.
    reflexivity.
  - now apply Forall_replicate.
  - cbn [LEC.ctor LEC.failure_count_]. int_lia.
  - cbn [LEC.ctor LEC.failure_count_].
    rewrite length_replicate, Z2Nat.id by int_lia. lia.
Qed.

End Wrapped.

(** ** Concrete runs on the sample instantiation *)

(** A policy with two permitted failures, three transient failures. *)
Example run_count_2 :
  LEC.OnFailure_seq Sample.IsPermanentFailure (LEC.ctor 2)
    [Sample.Transient; Sample.Transient; Sample.Transient] =
    ([true; true; false], LEC.mk 3 2).
Proof. reflexivity. Qed.

(** No permitted failure: the first transient failure is not retried. *)
Example run_count_0 :
  LEC.OnFailure Sample.IsPermanentFailure (LEC.ctor 0) Sample.Transient =
    (false, LEC.mk 1 0).
Proof. reflexivity. Qed.

(** The same through pointers: construction, two calls, a clone, and two
    calls on the clone; the clone starts with the whole budget. *)
Example run_through_pointers :
  (h1 ← new_LimitedErrorCountRetryPolicy 1 ∅;
   h2 ← OnFailure_calls Sample.IsPermanentFailure h1.1
          [(0, Sample.Transient); (1, Sample.Transient)] h1.2;
   h3 ← clone 2 h1.1 h2.2;
   h4 ← OnFailure_calls Sample.IsPermanentFailure h3.1
          [(3, Sample.Transient); (4, Sample.Transient)] h3.2;
   Some (h2.1, h4.1, h4.2 !! h1.1, h4.2 !! h3.1)) =
  Some ([true; false], [true; false],
        Some (ErrorCount (LEC.mk 2 1)), Some (ErrorCount (LEC.mk 2 1))).
Proof. vm_compute. reflexivity. Qed.

(** The counter at [INT_MAX]: the call answers from the old count and
    stores [INT_MIN]; the call after it finds a count below the limit. *)
Example run_at_INT_MAX :
  LEC.OnFailure_seq Sample.IsPermanentFailure (LEC.mk Int.INT_MAX 0)
    [Sample.Transient; Sample.Transient] =
    ([false; true], LEC.mk (Int.INT_MIN + 1) 0).
Proof. reflexivity. Qed.

(** A duration-limited policy with 100 ms constructed at 1000 ms, in
    ticks: retried one tick before the deadline, not at the deadline
    itself, never on a permanent failure. *)
Example run_duration :
  map (fun c => LD.OnFailure Sample.IsPermanentFailure (fst c)
                  (LD.ctor 1000000000 100) (snd c))
      [(1099999999, Sample.Transient); (1100000000, Sample.Transient);
       (1050000000, Sample.Permanent)] =
    [true; false; false].
Proof. reflexivity. Qed.

(** The longest duration, [milliseconds::max()], at 1000 ms: its count of
    ticks does not fit 64 bits, and the deadline is one millisecond
    before the construction. *)
Example run_duration_max :
  LD.ctor 1000000000 Chrono.INT64_MAX = LD.mk Chrono.INT64_MAX 999000000.
Proof. reflexivity. Qed.

(** Ten thousand million seconds at 1000 ms: the deadline is in the
    past. *)
Example run_duration_long :
  LD.ctor 1000000000 10000000000000 =
    LD.mk 10000000000000 (-8446744072709551616).
Proof. reflexivity. Qed.

(** * The claims *)

Section Claims.
Context {StatusType : Type}.
Variable IsPermanentFailure : StatusType -> bool.

(** C1.  A failure that the classifier calls permanent is never retried:
    [OnFailure] answers [false] on a count-limited policy in any state
    (whatever its count and limit) and on a duration-limited policy at
    any clock reading (before or after the deadline), called on the
    object or through a [RetryPolicy] pointer; the call writes nothing. *)
Theorem C1_permanent_failure_is_not_retried
    (status : StatusType) (Hpermanent : IsPermanentFailure status = true)
    (count_limited : LEC.t) (duration_limited : LD.t) (now : Z)
    (h : heap) (this : addr) (o : RetryPolicy) (Hlive : h !! this = Some o) :
  LEC.OnFailure IsPermanentFailure count_limited status = (false, count_limited) /\
  LD.OnFailure IsPermanentFailure now duration_limited status = false /\
  OnFailure IsPermanentFailure now this status h = Some (false, h).
Proof.
  split; [now apply LEC_OnFailure_permanent|].
  assert (Hd : forall d, LD.OnFailure IsPermanentFailure now d status = false).
  { intros d. unfold LD.OnFailure. now rewrite Hpermanent. }
  split; [apply Hd|].
  destruct o as [p|p].
  - rewrite (OnFailure_ErrorCount _ _ _ _ _ _ Hlive).
    rewrite LEC_OnFailure_permanent by assumption. cbn [fst snd].
    now rewrite insert_id.
  - rewrite (OnFailure_Duration _ _ _ _ _ _ Hlive). now rewrite Hd.
Qed.

(** C2, as the code has it.  A fresh count-limited policy with a
    non-negative [max_failures], fed at most [2^31] consecutive transient
    failures, answers [true] to the first [max_failures] calls and [false]
    to every later one, and has counted the calls; with [max_failures = 0]
    every answer is [false].  (The counter is an [int]: the call after
    these finds it wrapped to [INT_MIN].) *)
Theorem C2_transient_failures_within_int
    (max_failures : Z) (statuses : list StatusType)
    (Hmax : 0 <= max_failures)
    (Htransient : Forall (fun s => IsPermanentFailure s = false) statuses)
    (Hlen : Z.of_nat (length statuses) <= Int.INT_MAX + 1) :
  LEC.OnFailure_seq IsPermanentFailure (LEC.ctor max_failures) statuses =
    (replicate (Nat.min (length statuses) (Z.to_nat max_failures)) true ++
     replicate (length statuses - Z.to_nat max_failures) false,
     LEC.mk (Int.wrap (Z.of_nat (length statuses))) max_failures) /\
  (max_failures = 0 ->
   fst (LEC.OnFailure_seq IsPermanentFailure (LEC.ctor max_failures) statuses) =
     replicate (length statuses) false).
Proof.
  assert (Hrun := LEC_OnFailure_seq_transient IsPermanentFailure statuses
                    (LEC.ctor max_failures) Htransient).
  cbn [LEC.ctor LEC.failure_count_ LEC.max_failures_] in Hrun.
  rewrite Z.sub_0_r, Z.add_0_l in Hrun.
  rewrite Hrun by (first [assumption | int_lia]).
  split; [reflexivity|].
  intros ->. cbn [fst]. unfold transient_answers.
  change (Z.to_nat 0) with 0%nat. now rewrite Nat.min_0_r, Nat.sub_0_r.
Qed.


(** C4, as the code has it.  A fresh count-limited policy with
    [max_failures = 3], fed a transient, a permanent and a transient
    failure, answers [true], [false], [true]: the permanent failure does
    not reach the counter, which stands at 2 after the three calls. *)
Theorem C4_permanent_failure_between_transient_ones
    (t1 p t2 : StatusType)
    (Ht1 : IsPermanentFailure t1 = false)
    (Hp : IsPermanentFailure p = true)
    (Ht2 : IsPermanentFailure t2 = false) :
  LEC.OnFailure_seq IsPermanentFailure (LEC.ctor 3) [t1; p; t2] =
    ([true; false; true], LEC.mk 2 3).
Proof.
  rewrite !LEC_OnFailure_seq_cons.
  rewrite (LEC_OnFailure_transient _ _ t1 Ht1). cbn [fst snd].
  rewrite (LEC_OnFailure_permanent _ _ p Hp). cbn [fst snd].
  rewrite (LEC_OnFailure_transient _ _ t2 Ht2). reflexivity.
Qed.

(** C5, as the code has it.  On a permanent failure [OnFailure] of a
    count-limited policy leaves the whole object as it was.  A call
    changes the object only on a transient failure, and then, the count
    being an [int] below [INT_MAX], it adds exactly one to
    [failure_count_] and changes nothing else. *)
Theorem C5_counter_moves_only_on_transient_failures
    (this : LEC.t) (status : StatusType) :
  (IsPermanentFailure status = true ->
   snd (LEC.OnFailure IsPermanentFailure this status) = this) /\
  (snd (LEC.OnFailure IsPermanentFailure this status) <> this ->
   IsPermanentFailure status = false) /\
  (IsPermanentFailure status = false ->
   Int.in_range (LEC.failure_count_ this) ->
   LEC.failure_count_ this < Int.INT_MAX ->
   snd (LEC.OnFailure IsPermanentFailure this status) =
     LEC.mk (LEC.failure_count_ this + 1) (LEC.max_failures_ this)).
Proof.
  split; [|split].
  - intros Hp. now rewrite LEC_OnFailure_permanent.
  - intros Hchanged. destruct (IsPermanentFailure status) eqn:Hs; [|reflexivity].
    now rewrite LEC_OnFailure_permanent in Hchanged.
  - intros Ht Hrange Hlt. rewrite LEC_OnFailure_transient by assumption. cbn [snd].
    rewrite wrap_in_range by int_lia. reflexivity.
Qed.

(** C6.  [clone()] of a count-limited policy in any state (whatever it
    has counted) gives a new object at an address of its own, with the
    same [max_failures_] and a count of zero, and leaves the original and
    every other object as they were.  Later [OnFailure] calls on the clone
    answer as they do on a freshly constructed policy with that limit and
    write only to the clone; calls on the original do not write to the
    clone. *)
Theorem C6_clone_of_count_limited_policy_starts_afresh
    (h : heap) (this : addr) (p : LEC.t) (now : Z)
    (calls : list (Z * StatusType))
    (Hlive : h !! this = Some (ErrorCount p)) :
  exists (copy : addr) (h' h'' : heap),
    clone now this h = Some (copy, h') /\
    copy <> this /\ h !! copy = None /\
    h' = <[copy := ErrorCount (LEC.mk 0 (LEC.max_failures_ p))]> h /\
    h' !! this = Some (ErrorCount p) /\
    OnFailure_calls IsPermanentFailure copy calls h' =
      Some (fst (LEC.OnFailure_seq IsPermanentFailure
                   (LEC.ctor (LEC.max_failures_ p)) (map snd calls)), h'') /\
    h'' !! copy =
      Some (ErrorCount (snd (LEC.OnFailure_seq IsPermanentFailure
                               (LEC.ctor (LEC.max_failures_ p)) (map snd calls)))) /\
    h'' !! this = Some (ErrorCount p) /\
    (forall now' status r h2,
        OnFailure IsPermanentFailure now' this status h' = Some (r, h2) ->
        h2 !! copy = h' !! copy).
Proof.
  set (o := ErrorCount (LEC.copy_ctor p)).
  assert (Hne : fst (alloc h o) <> this) by (eapply alloc_distinct, Hlive).
  assert (Hnew : snd (alloc h o) !! fst (alloc h o)
                 = Some (ErrorCount (LEC.ctor (LEC.max_failures_ p))))
    by apply alloc_lookup_new.
  exists (fst (alloc h o)), (snd (alloc h o)).
  eexists. split; [unfold clone; rewrite Hlive; reflexivity|].
  split; [exact Hne|]. split; [apply alloc_fresh|].
  split; [reflexivity|]. split; [now apply alloc_lookup_old|].
  split; [apply (OnFailure_calls_ErrorCount _ _ _ _ _ Hnew)|].
  split; [apply lookup_insert_eq|].
  split.
  - rewrite lookup_insert_ne by exact Hne. now apply alloc_lookup_old.
  - intros now' status r h2 Hcall.
    apply (OnFailure_other _ _ _ _ _ _ _ _ Hcall Hne).
Qed.


(** C8, as the code has it.  The deadline of a duration-limited policy is
    computed once, by the constructor, from [max_duration] and the clock
    reading [now]; when [max_duration] in ticks and its sum with [now]
    fit the 64-bit count it is [now] plus [max_duration].  No later
    operation changes it: [OnFailure] on the object returns and leaves
    the heap as it is, [clone()] of it returns and leaves the object as
    it is, and after any run of interface calls, on this or any other
    object, the object is the one that was constructed. *)
Theorem C8_deadline_is_fixed_at_construction
    (h : heap) (now max_duration : Z) :
  exists (this : addr) (h1 : heap) (constructed : LD.t),
    new_LimitedDurationRetryPolicy now max_duration h = Some (this, h1) /\
    h1 !! this = Some (Duration constructed) /\
    LD.max_duration_ constructed = max_duration /\
    (Chrono.in_range (Chrono.ms max_duration) ->
     Chrono.in_range (Chrono.ms max_duration + now) ->
     LD.deadline_ constructed = Chrono.ms max_duration + now) /\
    forall (h2 : heap) (p : LD.t), h2 !! this = Some (Duration p) ->
      (forall now' status,
          OnFailure IsPermanentFailure now' this status h2 =
            Some (LD.OnFailure IsPermanentFailure now' p status, h2)) /\
      (forall now', exists copy h3,
          clone now' this h2 = Some (copy, h3) /\
          h3 !! this = Some (Duration p)) /\
      (forall calls h3,
          exec_all IsPermanentFailure calls h2 = Some h3 ->
          h3 !! this = Some (Duration p)).
Proof.
  set (o := Duration (LD.ctor now max_duration)).
  exists (fst (alloc h o)), (snd (alloc h o)), (LD.ctor now max_duration).
  split; [reflexivity|]. split; [apply alloc_lookup_new|].
  split; [reflexivity|].
  split; [intros Hd Hsum; now rewrite LD_ctor_exact|].
  intros h2 p Hlive. split; [|split].
  - intros now' status. now apply OnFailure_Duration.
  - intros now'. do 2 eexists. unfold clone. rewrite Hlive.
    split; [reflexivity|]. now apply alloc_lookup_old.
  - intros calls h3 Hrun. eapply exec_all_Duration_unchanged; eassumption.
Qed.

(** C9, as the code has it.  Construction of a count-limited policy has
    no failure path: for every [max_failures], the negative ones included,
    it returns a new object with a count of zero and [max_failures_] equal
    to the argument as given, neither rejected nor clamped. *)
Theorem C9_construction_accepts_every_limit (max_failures : Z) (h : heap) :
  exists (this : addr),
    new_LimitedErrorCountRetryPolicy max_failures h =
      Some (this, <[this := ErrorCount (LEC.mk 0 max_failures)]> h) /\
    h !! this = None.
Proof.
  exists (fst (alloc h (ErrorCount (LEC.ctor max_failures)))).
  split; [reflexivity | apply alloc_fresh].
Qed.

(** C10, as the code has it.  For every negative [max_failures]
    construction succeeds, and every later [OnFailure] call on the policy
    answers [false], for permanent and transient failures alike, as long
    as at most [2^31] of the failures are transient; these are the answers
    of a policy constructed with zero. *)
Theorem C10_negative_limit_permits_no_retry_within_int
    (max_failures : Z) (Hnegative : max_failures < 0)
    (h : heap) (calls : list (Z * StatusType))
    (Hcount : Z.of_nat (transient_calls IsPermanentFailure (map snd calls))
              <= Int.INT_MAX + 1) :
  exists (this : addr) (h1 h2 : heap),
    new_LimitedErrorCountRetryPolicy max_failures h = Some (this, h1) /\
    OnFailure_calls IsPermanentFailure this calls h1 =
      Some (replicate (length calls) false, h2) /\
    fst (LEC.OnFailure_seq IsPermanentFailure (LEC.ctor 0) (map snd calls)) =
      replicate (length calls) false.
Proof.
  set (o := ErrorCount (LEC.ctor max_failures)).
  assert (Hrange : Int.in_range 0) by int_lia.
  exists (fst (alloc h o)), (snd (alloc h o)). eexists.
  split; [reflexivity|]. split.
  - rewrite (OnFailure_calls_ErrorCount _ _ _ _ _ (alloc_lookup_new h o)).
    rewrite LEC_OnFailure_seq_exhausted;
      [rewrite length_map; reflexivity | cbn; lia | exact Hrange | exact Hcount].
  - rewrite LEC_OnFailure_seq_exhausted;
      [rewrite length_map; reflexivity | cbn; lia | exact Hrange | exact Hcount].
Qed.

End Claims.

(** * The claims on the sample instantiation *)

Section Instances.
Import Sample.

(** C1 at a count-limited policy with budget left, a duration-limited
    policy before its deadline, and a live object. *)
Lemma C1_witness :
  LEC.OnFailure IsPermanentFailure (LEC.mk 1 3) Permanent = (false, LEC.mk 1 3) /\
  LD.OnFailure IsPermanentFailure 50 (LD.mk 100 100) Permanent = false /\
  OnFailure IsPermanentFailure 50 1%positive Permanent
            {[1%positive := Duration (LD.mk 100 100)]} =
    Some (false, {[1%positive := Duration (LD.mk 100 100)]}).
Proof.
  apply (C1_permanent_failure_is_not_retried IsPermanentFailure Permanent eq_refl
           (LEC.mk 1 3) (LD.mk 100 100) 50
           {[1%positive := Duration (LD.mk 100 100)]} 1%positive
           (Duration (LD.mk 100 100))).
  reflexivity.
Defined.

(** C2 at [max_failures = 2] and three transient failures. *)
Lemma C2_witness :
  LEC.OnFailure_seq IsPermanentFailure (LEC.ctor 2) [Transient; Transient; Transient] =
    ([true; true; false], LEC.mk 3 2).
Proof.
  refine (proj1 (C2_transient_failures_within_int IsPermanentFailure 2
                   [Transient; Transient; Transient] _ _ _)).
  - lia.
  - repeat constructor.
  - vm_compute. discriminate.
Defined.

(** The claim C2 fails at [max_failures = 0] and [2^31 + 1] transient
    failures: the counter has wrapped to [INT_MIN], which is below the
    limit, and the last call answers [true]. *)
Lemma C2_counterexample :
  last (fst (LEC.OnFailure_seq IsPermanentFailure (LEC.ctor 0)
               (replicate (S (Z.to_nat (Int.INT_MAX + 1))) Transient))) =
    Some true.
Proof. exact (LEC_OnFailure_after_wrap IsPermanentFailure 0 Transient eq_refl). Qed.


(** C4 on the sample statuses. *)
Lemma C4_witness :
  LEC.OnFailure_seq IsPermanentFailure (LEC.ctor 3) [Transient; Permanent; Transient] =
    ([true; false; true], LEC.mk 2 3).
Proof.
  exact (C4_permanent_failure_between_transient_ones IsPermanentFailure
           Transient Permanent Transient eq_refl eq_refl eq_refl).
Defined.

(** The claim C4 fails on the sample statuses: the answers are not
    [true], [false], [false]. *)
Lemma C4_counterexample :
  fst (LEC.OnFailure_seq IsPermanentFailure (LEC.ctor 3)
         [Transient; Permanent; Transient]) <> [true; false; false].
Proof. vm_compute. discriminate. Qed.

(** C5 at a policy with limit 3 that has counted one failure. *)
Lemma C5_witness :
  snd (LEC.OnFailure IsPermanentFailure (LEC.mk 1 3) Permanent) = LEC.mk 1 3 /\
  snd (LEC.OnFailure IsPermanentFailure (LEC.mk 1 3) Transient) = LEC.mk 2 3.
Proof.
  split.
  - exact (proj1 (C5_counter_moves_only_on_transient_failures IsPermanentFailure
                    (LEC.mk 1 3) Permanent) eq_refl).
  - refine (proj2 (proj2 (C5_counter_moves_only_on_transient_failures
                            IsPermanentFailure (LEC.mk 1 3) Transient))
              eq_refl _ _).
    + vm_compute. split; discriminate.
    + vm_compute. reflexivity.
Defined.

(** The claim C5 fails at a count of [INT_MAX]: a transient failure
    leaves the count at [INT_MIN], which is not the count plus one. *)
Lemma C5_counterexample :
  LEC.failure_count_
    (snd (LEC.OnFailure IsPermanentFailure (LEC.mk Int.INT_MAX 0) Transient)) =
    Int.INT_MIN /\
  Int.INT_MIN <> Int.INT_MAX + 1.
Proof. split; [reflexivity | discriminate]. Qed.

(** C6 at a policy with limit 3 that has counted two failures: the clone
    answers four transient failures like a fresh policy, and the original
    still holds its count of two. *)
Lemma C6_witness :
  exists (copy : addr) (h' h'' : heap),
    clone 0 1%positive {[1%positive := ErrorCount (LEC.mk 2 3)]} = Some (copy, h') /\
    copy <> 1%positive /\
    OnFailure_calls IsPermanentFailure copy
      [(0, Transient); (0, Transient); (0, Transient); (0, Transient)] h' =
      Some ([true; true; true; false], h'') /\
    h'' !! copy = Some (ErrorCount (LEC.mk 4 3)) /\
    h'' !! 1%positive = Some (ErrorCount (LEC.mk 2 3)).
Proof.
  assert (Hlive : ({[1%positive := ErrorCount (LEC.mk 2 3)]} : heap) !! 1%positive
                  = Some (ErrorCount (LEC.mk 2 3))) by reflexivity.
  destruct (C6_clone_of_count_limited_policy_starts_afresh IsPermanentFailure
              {[1%positive := ErrorCount (LEC.mk 2 3)]} 1%positive (LEC.mk 2 3) 0
              [(0, Transient); (0, Transient); (0, Transient); (0, Transient)]
              Hlive)
    as (copy & h' & h'' & Hclone & Hne & _ & _ & _ & Hcalls & Hcopy & Hthis & _).
  exists copy, h', h''. repeat split; assumption.
Defined.



(** C8 at a policy with 100 ms constructed at 1000 ms: the deadline is
    1100 ms, and it still is after a call at 1050 ms and a clone at
    1200 ms. *)
Lemma C8_witness :
  exists (this : addr) (h1 : heap),
    new_LimitedDurationRetryPolicy 1000000000 100 ∅ = Some (this, h1) /\
    h1 !! this = Some (Duration (LD.mk 100 1100000000)) /\
    OnFailure IsPermanentFailure 1050000000 this Transient h1 = Some (true, h1) /\
    exists (copy : addr) (h3 : heap),
      clone 1200000000 this h1 = Some (copy, h3) /\
      h3 !! this = Some (Duration (LD.mk 100 1100000000)).
Proof.
  destruct (C8_deadline_is_fixed_at_construction IsPermanentFailure ∅ 1000000000 100)
    as (this & h1 & [d q] & Hnew & Hthis & Hd & Hfit & Hlater).
  assert (Hq := Hfit ltac:(vm_compute; split; discriminate)
                     ltac:(vm_compute; split; discriminate)).
  cbn [LD.max_duration_ LD.deadline_] in Hd, Hq. subst d q.
  destruct (Hlater h1 _ Hthis) as (Hcall & Hclone & _).
  exists this, h1. repeat split; try assumption.
  - exact (Hcall 1050000000 Transient).
  - exact (Hclone 1200000000).
Defined.

(** The claim C8 fails at [milliseconds::max()] constructed at 1000 ms:
    the deadline is 999 ms, before the construction. *)
Lemma C8_counterexample :
  exists (this : addr) (h1 : heap),
    new_LimitedDurationRetryPolicy 1000000000 Chrono.INT64_MAX ∅ = Some (this, h1) /\
    h1 !! this = Some (Duration (LD.mk Chrono.INT64_MAX 999000000)) /\
    999000000 < 1000000000.
Proof.
  do 2 eexists. split; [reflexivity|].
  split; [apply alloc_lookup_new | reflexivity].
Qed.

(** The claim C9 fails at [max_failures = -1]: construction returns a
    policy, and the policy holds [-1]. *)
Lemma C9_counterexample :
  exists (this : addr) (h : heap),
    new_LimitedErrorCountRetryPolicy (-1) ∅ = Some (this, h) /\
    h !! this = Some (ErrorCount (LEC.mk 0 (-1))).
Proof. do 2 eexists. split; [reflexivity | apply alloc_lookup_new]. Qed.

(** C10 at [max_failures = -1] and a transient, a permanent and a
    transient failure. *)
Lemma C10_witness :
  exists (this : addr) (h1 h2 : heap),
    new_LimitedErrorCountRetryPolicy (-1) ∅ = Some (this, h1) /\
    OnFailure_calls IsPermanentFailure this
      [(0, Transient); (5, Permanent); (9, Transient)] h1 =
      Some ([false; false; false], h2).
Proof.
  destruct (C10_negative_limit_permits_no_retry_within_int IsPermanentFailure
              (-1) eq_refl ∅ [(0, Transient); (5, Permanent); (9, Transient)])
    as (this & h1 & h2 & Hnew & Hcalls & _).
  - vm_compute. discriminate.
  - exists this, h1, h2. split; assumption.
Defined.

(** The claim C10 fails at [max_failures = -1] and [2^31 + 1] transient
    failures: the counter has wrapped to [INT_MIN], which is below [-1],
    and the last call answers [true]. *)
Lemma C10_counterexample :
  last (fst (LEC.OnFailure_seq IsPermanentFailure (LEC.ctor (-1))
               (replicate (S (Z.to_nat (Int.INT_MAX + 1))) Transient))) =
    Some true.
Proof. exact (LEC_OnFailure_after_wrap IsPermanentFailure (-1) Transient eq_refl). Qed.

End Instances.

(** * Further properties of the policies *)

(** ** Runs of a count-limited policy *)

Lemma wrap_add_wrap (a b : Z) : Int.wrap (Int.wrap a + b) = Int.wrap (a + b).
Proof.
  unfold Int.wrap. f_equal.
  replace ((a + 2147483648) mod 4294967296 - 2147483648 + b + 2147483648)
    with ((a + 2147483648) mod 4294967296 + b) by lia.
  rewrite Zplus_mod_idemp_l. f_equal. lia.
Qed.

Lemma retries_granted_cons (r : bool) (answers : list bool) :
  retries_granted (r :: answers) =
  ((if r then 1 else 0) + retries_granted answers)%nat.
Proof. unfold retries_granted. cbn [List.filter]. now destruct r. Qed.

Lemma retries_granted_replicate_false (n : nat) :
  retries_granted (replicate n false) = 0%nat.
Proof. induction n as [|n IH]; [reflexivity | exact IH]. Qed.

Section ErrorCountRuns.
Context {StatusType : Type}.
Variable IsPermanentFailure : StatusType -> bool.

(** A run leaves [max_failures_] as it was. *)
Lemma LEC_OnFailure_seq_max_failures (statuses : list StatusType) (this : LEC.t) :
  LEC.max_failures_ (snd (LEC.OnFailure_seq IsPermanentFailure this statuses)) =
  LEC.max_failures_ this.
Proof.
  revert this. induction statuses as [|s rest IH]; intros this; [reflexivity|].
  rewrite LEC_OnFailure_seq_cons. cbn [snd].
  now rewrite IH, LEC_OnFailure_max_failures.
Qed.

(** A run counts its transient failures, in [int] arithmetic. *)
Lemma LEC_OnFailure_seq_count (statuses : list StatusType) (this : LEC.t) :
  Int.in_range (LEC.failure_count_ this) ->
  LEC.failure_count_ (snd (LEC.OnFailure_seq IsPermanentFailure this statuses)) =
  Int.wrap (LEC.failure_count_ this
            + Z.of_nat (transient_calls IsPermanentFailure statuses)).
Proof.
  revert this. induction statuses as [|s rest IH]; intros [c m] Hc;
    cbn [LEC.failure_count_] in *.
  - cbn. now rewrite Z.add_0_r, wrap_in_range.
  - rewrite LEC_OnFailure_seq_cons. cbn [snd].
    unfold transient_calls. cbn [List.filter].
    destruct (IsPermanentFailure s) eqn:Hs; cbn [negb].
    + rewrite LEC_OnFailure_permanent by assumption. cbn [snd].
      now rewrite IH.
    + rewrite LEC_OnFailure_transient by assumption.
      cbn [snd LEC.failure_count_ LEC.max_failures_ length].
      rewrite IH by (cbn [LEC.failure_count_]; apply wrap_range).
      cbn [LEC.failure_count_]. rewrite wrap_add_wrap.
      f_equal. unfold transient_calls. lia.
Qed.

End ErrorCountRuns.

Section ErrorCountBudget.
Context {StatusType : Type}.
Variable IsPermanentFailure : StatusType -> bool.

Lemma transient_calls_app (xs ys : list StatusType) :
  transient_calls IsPermanentFailure (xs ++ ys) =
  (transient_calls IsPermanentFailure xs + transient_calls IsPermanentFailure ys)%nat.
Proof. unfold transient_calls. now rewrite List.filter_app, length_app. Qed.

Lemma transient_calls_cons (s : StatusType) (rest : list StatusType) :
  transient_calls IsPermanentFailure (s :: rest) =
  ((if IsPermanentFailure s then 0 else 1)
   + transient_calls IsPermanentFailure rest)%nat.
Proof. unfold transient_calls. cbn [List.filter]. now destruct (IsPermanentFailure s). Qed.

(** From any state within [int], a run grants what is left of the budget
    and no more, up to and including the transient call whose increment
    leaves [INT_MAX]. *)
Lemma LEC_retries_granted (statuses : list StatusType) (this : LEC.t) :
  Int.in_range (LEC.failure_count_ this) ->
  LEC.failure_count_ this
    + Z.of_nat (transient_calls IsPermanentFailure statuses) <= Int.INT_MAX + 1 ->
  retries_granted (fst (LEC.OnFailure_seq IsPermanentFailure this statuses)) =
  Nat.min (Z.to_nat (LEC.max_failures_ this - LEC.failure_count_ this))
          (transient_calls IsPermanentFailure statuses).
Proof.
  revert this. induction statuses as [|s rest IH]; intros [c m] Hc Hlen;
    cbn [LEC.failure_count_ LEC.max_failures_] in *.
  - cbn. now rewrite Nat.min_0_r.
  - rewrite LEC_OnFailure_seq_cons, transient_calls_cons in *. cbn [fst].
    rewrite retries_granted_cons.
    destruct (IsPermanentFailure s) eqn:Hs.
    + rewrite LEC_OnFailure_permanent by assumption. cbn [fst snd].
      now rewrite IH.
    + rewrite LEC_OnFailure_transient by assumption.
      cbn [fst snd LEC.failure_count_ LEC.max_failures_].
      destruct (Z.eq_dec c Int.INT_MAX) as [Hmax|Hnmax].
      * rewrite LEC_OnFailure_seq_permanent by lia. cbn [fst].
        rewrite retries_granted_replicate_false.
        destruct (Z.ltb_spec c m); lia.
      * assert (Hc1 : Int.in_range (c + 1)) by int_lia.
        rewrite (wrap_in_range (c + 1)) by assumption.
        rewrite IH by (cbn [LEC.failure_count_]; first [assumption | lia]).
        cbn [LEC.failure_count_ LEC.max_failures_].
        destruct (Z.ltb_spec c m); lia.
Qed.

(** The run without its permanent failures gives the same answers to the
    transient ones and ends in the same state. *)
Lemma LEC_OnFailure_seq_transient_only (statuses : list StatusType) (this : LEC.t) :
  LEC.OnFailure_seq IsPermanentFailure this
    (transient_only IsPermanentFailure statuses) =
    (answers_to_transient IsPermanentFailure
       (fst (LEC.OnFailure_seq IsPermanentFailure this statuses)) statuses,
     snd (LEC.OnFailure_seq IsPermanentFailure this statuses)).
Proof.
  revert this. induction statuses as [|s rest IH]; intros this; [reflexivity|].
  rewrite LEC_OnFailure_seq_cons. cbn [fst snd].
  unfold transient_only, answers_to_transient in *.
  cbn [combine List.filter snd].
  destruct (IsPermanentFailure s) eqn:Hs; cbn [negb map fst].
  - rewrite LEC_OnFailure_permanent by assumption. cbn [fst snd]. apply IH.
  - now rewrite LEC_OnFailure_seq_cons, IH.
Qed.

Lemma transient_only_spec (statuses : list StatusType) :
  Forall (fun s => IsPermanentFailure s = false)
         (transient_only IsPermanentFailure statuses) /\
  length (transient_only IsPermanentFailure statuses) =
    transient_calls IsPermanentFailure statuses.
Proof.
  split; [|reflexivity]. unfold transient_only.
  induction statuses as [|s rest IH]; cbn [List.filter]; [constructor|].
  destruct (IsPermanentFailure s) eqn:Hs; cbn [negb]; [exact IH|].
  constructor; assumption.
Qed.

(** X1.  A fresh count-limited policy grants exactly its budget: in any
    run of permanent and transient failures with at most [2^31] transient
    ones, the number of [true] answers is the smaller of [max_failures]
    (zero when it is negative) and the number of transient failures. *)
Theorem X1_retries_granted_is_the_budget
    (max_failures : Z) (statuses : list StatusType)
    (Hcount : Z.of_nat (transient_calls IsPermanentFailure statuses)
              <= Int.INT_MAX + 1) :
  retries_granted
    (fst (LEC.OnFailure_seq IsPermanentFailure (LEC.ctor max_failures) statuses)) =
  Nat.min (Z.to_nat max_failures) (transient_calls IsPermanentFailure statuses).
Proof.
  rewrite LEC_retries_granted; cbn [LEC.ctor LEC.failure_count_ LEC.max_failures_].
  - now rewrite Z.sub_0_r.
  - int_lia.
  - lia.
Qed.

(** X2.  Permanent failures are invisible to a count-limited policy, in
    any state and for any run: each is answered [false], and the run
    without them gives the same answers to the transient failures and
    leaves the object in the same state. *)
Theorem X2_permanent_failures_are_transparent
    (statuses : list StatusType) (this : LEC.t) :
  Forall2 (fun (r : bool) s => IsPermanentFailure s = true -> r = false)
          (fst (LEC.OnFailure_seq IsPermanentFailure this statuses)) statuses /\
  LEC.OnFailure_seq IsPermanentFailure this
    (transient_only IsPermanentFailure statuses) =
    (answers_to_transient IsPermanentFailure
       (fst (LEC.OnFailure_seq IsPermanentFailure this statuses)) statuses,
     snd (LEC.OnFailure_seq IsPermanentFailure this statuses)).
Proof.
  split; [|apply LEC_OnFailure_seq_transient_only].
  revert this. induction statuses as [|s rest IH]; intros this; [constructor|].
  rewrite LEC_OnFailure_seq_cons. cbn [fst].
  constructor; [|apply IH].
  intros Hp. now rewrite LEC_OnFailure_permanent.
Qed.

(** X3.  From any state within [int] a run of a count-limited policy
    leaves [max_failures_] as it was and [failure_count_] raised by the
    number of transient failures in [int] arithmetic, which is their sum
    as long as that is at most [INT_MAX]. *)
Theorem X3_counter_counts_the_transient_failures
    (statuses : list StatusType) (this : LEC.t)
    (Hrange : Int.in_range (LEC.failure_count_ this)) :
  snd (LEC.OnFailure_seq IsPermanentFailure this statuses) =
    LEC.mk (Int.wrap (LEC.failure_count_ this
                      + Z.of_nat (transient_calls IsPermanentFailure statuses)))
           (LEC.max_failures_ this) /\
  (LEC.failure_count_ this
     + Z.of_nat (transient_calls IsPermanentFailure statuses) <= Int.INT_MAX ->
   LEC.failure_count_ (snd (LEC.OnFailure_seq IsPermanentFailure this statuses)) =
     LEC.failure_count_ this
     + Z.of_nat (transient_calls IsPermanentFailure statuses)).
Proof.
  assert (Hcount := LEC_OnFailure_seq_count IsPermanentFailure statuses this Hrange).
  assert (Hmax := LEC_OnFailure_seq_max_failures IsPermanentFailure statuses this).
  destruct (snd (LEC.OnFailure_seq IsPermanentFailure this statuses)) as [c' m'].
  cbn [LEC.failure_count_ LEC.max_failures_] in *. subst c' m'.
  split; [reflexivity|]. intros Hle. apply wrap_in_range. int_lia.
Qed.

(** X4.  A refusal is final: from any state within [int], once a
    count-limited policy has answered [false] to a transient failure it
    answers [false] to every later failure of the run, as long as the run
    has at most [2^31 - failure_count_] transient failures. *)
Theorem X4_refusal_is_final
    (this : LEC.t) (xs : list StatusType) (s : StatusType) (ys : list StatusType)
    (Hrange : Int.in_range (LEC.failure_count_ this))
    (Hcount : LEC.failure_count_ this
              + Z.of_nat (transient_calls IsPermanentFailure (xs ++ s :: ys))
              <= Int.INT_MAX + 1)
    (Htransient : IsPermanentFailure s = false)
    (Hrefused : fst (LEC.OnFailure IsPermanentFailure
                       (snd (LEC.OnFailure_seq IsPermanentFailure this xs)) s)
                = false) :
  fst (LEC.OnFailure_seq IsPermanentFailure this (xs ++ s :: ys)) =
    fst (LEC.OnFailure_seq IsPermanentFailure this xs)
      ++ replicate (S (length ys)) false.
Proof.
  rewrite LEC_OnFailure_seq_app. cbn [fst]. f_equal.
  rewrite transient_calls_app, transient_calls_cons, Htransient in Hcount.
  assert (Hc := LEC_OnFailure_seq_count IsPermanentFailure xs this Hrange).
  rewrite wrap_in_range in Hc by int_lia.
  rewrite LEC_OnFailure_transient in Hrefused by assumption. cbn [fst] in Hrefused.
  apply Z.ltb_ge in Hrefused.
  change (S (length ys)) with (length (s :: ys)).
  apply LEC_OnFailure_seq_exhausted; [assumption | rewrite Hc; int_lia |].
  rewrite transient_calls_cons, Htransient, Hc. lia.
Qed.

(** X5.  Copying or moving a count-limited policy at any point of a run
    gives the policy as it was first constructed: the limit is kept, the
    failures counted so far are not. *)
Theorem X5_copy_and_move_forget_the_count
    (statuses : list StatusType) (max_failures : Z) :
  LEC.copy_ctor (snd (LEC.OnFailure_seq IsPermanentFailure
                        (LEC.ctor max_failures) statuses)) =
    LEC.ctor max_failures /\
  LEC.move_ctor (snd (LEC.OnFailure_seq IsPermanentFailure
                        (LEC.ctor max_failures) statuses)) =
    LEC.ctor max_failures.
Proof.
  unfold LEC.copy_ctor, LEC.move_ctor.
  now rewrite LEC_OnFailure_seq_max_failures.
Qed.

(** X12.  In any run of permanent and transient failures on a fresh
    count-limited policy, with at most [2^31] transient ones, the answers
    to the transient failures are [true] for the first [max_failures] of
    them and [false] for the others, wherever the permanent failures
    stand in between. *)
Theorem X12_answers_follow_the_transient_failures
    (max_failures : Z) (statuses : list StatusType)
    (Hcount : Z.of_nat (transient_calls IsPermanentFailure statuses)
              <= Int.INT_MAX + 1) :
  answers_to_transient IsPermanentFailure
    (fst (LEC.OnFailure_seq IsPermanentFailure (LEC.ctor max_failures) statuses))
    statuses =
  transient_answers max_failures (transient_calls IsPermanentFailure statuses).
Proof.
  assert (Hrun := LEC_OnFailure_seq_transient_only statuses (LEC.ctor max_failures)).
  destruct (transient_only_spec statuses) as [Hall Hlen].
  rewrite LEC_OnFailure_seq_transient in Hrun;
    cbn [LEC.ctor LEC.failure_count_ LEC.max_failures_];
    [| assumption | int_lia | rewrite Hlen; lia].
  cbn [LEC.ctor LEC.failure_count_ LEC.max_failures_] in Hrun.
  rewrite Z.sub_0_r, Hlen in Hrun.
  injection Hrun as Hanswers _. now symmetry.
Qed.

End ErrorCountBudget.

(** ** Runs through pointers *)

Lemma same_criteria_refl (o : RetryPolicy) : same_criteria o o.
Proof. now destruct o. Qed.

Lemma same_criteria_trans (o1 o2 o3 : RetryPolicy) :
  same_criteria o1 o2 -> same_criteria o2 o3 -> same_criteria o1 o3.
Proof.
  destruct o1, o2, o3; cbn; try contradiction; intros H12 H23; congruence.
Qed.

Section PointerRuns.
Context {StatusType : Type}.
Variable IsPermanentFailure : StatusType -> bool.

(** Successive calls through one pointer to a duration-limited policy
    are answered one by one from the clock and the object, which is never
    written. *)
Lemma OnFailure_calls_Duration (this : addr) (calls : list (Z * StatusType))
      (h : heap) (p : LD.t) :
  h !! this = Some (Duration p) ->
  OnFailure_calls IsPermanentFailure this calls h =
    Some (map (fun c => LD.OnFailure IsPermanentFailure (fst c) p (snd c)) calls, h).
Proof.
  intros Hl. induction calls as [|[now status] rest IH]; [reflexivity|].
  cbn [OnFailure_calls map fst snd].
  now rewrite (OnFailure_Duration _ _ _ _ _ _ Hl), IH.
Qed.

(** One call of the interface keeps every live object alive, in its
    class and with its criteria. *)
Lemma exec_same_criteria (now : Z) (c : call) (h h' : heap)
      (l : addr) (o : RetryPolicy) :
  exec IsPermanentFailure now c h = Some h' ->
  h !! l = Some o ->
  exists o', h' !! l = Some o' /\ same_criteria o o'.
Proof.
  intros Hexec Hl. destruct c as [m|d|this|this status]; cbn [exec] in Hexec.
  - injection Hexec as <-. exists o. cbn [snd].
    split; [now apply alloc_lookup_old | apply same_criteria_refl].
  - injection Hexec as <-. exists o. cbn [snd].
    split; [now apply alloc_lookup_old | apply same_criteria_refl].
  - unfold clone in Hexec.
    destruct (h !! this) as [[q|q]|]; [| |discriminate];
      injection Hexec as <-; exists o;
      (split; [now apply alloc_lookup_old | apply same_criteria_refl]).
  - destruct (OnFailure IsPermanentFailure now this status h)
      as [[r h'']|] eqn:Hcall; [|discriminate].
    injection Hexec as <-.
    destruct (decide (l = this)) as [->|Hne].
    + destruct o as [p|p].
      * rewrite (OnFailure_ErrorCount _ _ _ _ _ _ Hl) in Hcall.
        injection Hcall as _ <-. eexists.
        split; [apply lookup_insert_eq|]. cbn.
        now rewrite LEC_OnFailure_max_failures.
      * rewrite (OnFailure_Duration _ _ _ _ _ _ Hl) in Hcall.
        injection Hcall as _ <-. exists (Duration p).
        split; [assumption | reflexivity].
    + exists o. rewrite (OnFailure_other _ _ _ _ _ _ _ _ Hcall Hne).
      split; [assumption | apply same_criteria_refl].
Qed.

(** X6.  A duration-limited policy does not count: through a pointer to
    it, any number of transient failures, each at a clock reading before
    the deadline, are all answered [true], and the heap stays as it is. *)
Theorem X6_any_number_of_failures_before_the_deadline
    (this : addr) (calls : list (Z * StatusType)) (h : heap) (p : LD.t)
    (Hlive : h !! this = Some (Duration p))
    (Hwindow : Forall (fun c => IsPermanentFailure (snd c) = false /\
                                fst c < LD.deadline_ p) calls) :
  OnFailure_calls IsPermanentFailure this calls h =
    Some (replicate (length calls) true, h).
Proof.
  rewrite (OnFailure_calls_Duration _ _ _ _ Hlive). do 2 f_equal.
  induction Hwindow as [|[now status] rest [Ht Hlt] _ IH]; [reflexivity|].
  cbn [map length replicate fst snd] in *. rewrite IH. f_equal.
  unfold LD.OnFailure. rewrite Ht. now apply Z.ltb_lt.
Qed.

(** X7.  Expiry is final under a clock that does not go back: once a
    duration-limited policy has answered [false] to a transient failure
    at time [t], it answers [false] to every failure, transient or
    permanent, at any reading from [t] on. *)
Theorem X7_expiry_is_final
    (this : addr) (h : heap) (p : LD.t) (t : Z) (s : StatusType)
    (later : list (Z * StatusType))
    (Hlive : h !! this = Some (Duration p))
    (Htransient : IsPermanentFailure s = false)
    (Hrefused : OnFailure IsPermanentFailure t this s h = Some (false, h))
    (Hclock : Forall (fun c => t <= fst c) later) :
  OnFailure_calls IsPermanentFailure this later h =
    Some (replicate (length later) false, h).
Proof.
  rewrite (OnFailure_Duration _ _ _ _ _ _ Hlive) in Hrefused.
  injection Hrefused as Hrefused.
  unfold LD.OnFailure in Hrefused. rewrite Htransient in Hrefused.
  apply Z.ltb_ge in Hrefused.
  rewrite (OnFailure_calls_Duration _ _ _ _ Hlive). do 2 f_equal.
  induction Hclock as [|[now status] rest Hle _ IH]; [reflexivity|].
  cbn [map length replicate fst snd] in *. rewrite IH. f_equal.
  unfold LD.OnFailure. destruct (negb (IsPermanentFailure status)); [|reflexivity].
  apply Z.ltb_ge. lia.
Qed.

(** X8.  A duration-limited policy constructed with a zero or negative
    [max_duration] retries nothing, provided [max_duration] in ticks and
    the deadline fit the 64-bit count: every failure at a clock reading
    not before the construction is answered [false]. *)
Theorem X8_no_duration_no_retry
    (t0 max_duration : Z) (h : heap) (calls : list (Z * StatusType))
    (Hduration : max_duration <= 0)
    (Hfit : Chrono.in_range (Chrono.ms max_duration))
    (Hdeadline : Chrono.in_range (Chrono.ms max_duration + t0))
    (Hclock : Forall (fun c => t0 <= fst c) calls) :
  exists (this : addr) (h1 : heap),
    new_LimitedDurationRetryPolicy t0 max_duration h = Some (this, h1) /\
    OnFailure_calls IsPermanentFailure this calls h1 =
      Some (replicate (length calls) false, h1).
Proof.
  set (o := Duration (LD.ctor t0 max_duration)).
  exists (fst (alloc h o)), (snd (alloc h o)). split; [reflexivity|].
  rewrite (OnFailure_calls_Duration _ _ _ _ (alloc_lookup_new h o)). do 2 f_equal.
  rewrite LD_ctor_exact by assumption.
  induction Hclock as [|[now status] rest Hle _ IH]; [reflexivity|].
  cbn [map length replicate fst snd] in *. rewrite IH. f_equal.
  unfold LD.OnFailure. destruct (negb (IsPermanentFailure status)); [|reflexivity].
  apply Z.ltb_ge. cbn [LD.deadline_]. chrono_lia.
Qed.

(** X9.  Cloning or moving gives an expired duration-limited policy a new
    window: for a policy constructed at [t0] with a positive
    [max_duration] and expired at [t1], [max_duration] in ticks and both
    deadlines fitting the 64-bit count, transient failures in the
    [max_duration] from [t1] on are refused by the original and retried
    by its clone made at [t1], and by the object move-constructed from it
    at [t1]. *)
Theorem X9_clone_of_expired_policy_retries_again
    (h : heap) (this : addr) (t0 max_duration t1 t : Z) (s : StatusType)
    (Hlive : h !! this = Some (Duration (LD.ctor t0 max_duration)))
    (Hduration : 0 < max_duration)
    (Hfit : Chrono.in_range (Chrono.ms max_duration))
    (Hdeadline0 : Chrono.in_range (Chrono.ms max_duration + t0))
    (Hdeadline1 : Chrono.in_range (Chrono.ms max_duration + t1))
    (Hexpired : t0 + Chrono.ms max_duration <= t1)
    (Htransient : IsPermanentFailure s = false)
    (Hwindow : t1 <= t < t1 + Chrono.ms max_duration) :
  exists (copy : addr) (h' : heap),
    clone t1 this h = Some (copy, h') /\
    OnFailure IsPermanentFailure t this s h' = Some (false, h') /\
    OnFailure IsPermanentFailure t copy s h' = Some (true, h') /\
    LD.OnFailure IsPermanentFailure t
      (LD.move_ctor t1 (LD.ctor t0 max_duration)) s = true.
Proof.
  set (p := LD.ctor t0 max_duration) in *.
  set (o := Duration (LD.copy_ctor t1 p)).
  exists (fst (alloc h o)), (snd (alloc h o)).
  split; [unfold clone; rewrite Hlive; reflexivity|].
  assert (Hp : p = LD.mk max_duration (Chrono.ms max_duration + t0))
    by (now apply LD_ctor_exact).
  assert (Hcopy : LD.copy_ctor t1 p = LD.mk max_duration (Chrono.ms max_duration + t1)).
  { unfold LD.copy_ctor. rewrite Hp. cbn [LD.max_duration_].
    now apply LD_ctor_exact. }
  assert (Hnew : LD.OnFailure IsPermanentFailure t (LD.copy_ctor t1 p) s = true).
  { rewrite Hcopy. unfold LD.OnFailure. rewrite Htransient. apply Z.ltb_lt.
    cbn [LD.deadline_]. lia. }
  split; [|split; [|exact Hnew]].
  - rewrite (OnFailure_Duration _ _ _ _ _ p (alloc_lookup_old h o _ _ Hlive)).
    do 2 f_equal. rewrite Hp. unfold LD.OnFailure. rewrite Htransient.
    apply Z.ltb_ge. cbn [LD.deadline_]. lia.
  - rewrite (OnFailure_Duration _ _ _ _ _ _ (alloc_lookup_new h o)).
    now rewrite Hnew.
Qed.

(** X10.  A run of [OnFailure] calls through a pointer to a live policy
    of either class always returns, with one answer per call, and writes
    to no object but its own. *)
Theorem X10_run_returns_and_writes_only_its_object
    (this : addr) (calls : list (Z * StatusType)) (h : heap) (o : RetryPolicy)
    (Hlive : h !! this = Some o) :
  exists (answers : list bool) (h' : heap),
    OnFailure_calls IsPermanentFailure this calls h = Some (answers, h') /\
    length answers = length calls /\
    forall other, other <> this -> h' !! other = h !! other.
Proof.
  destruct o as [p|p].
  - rewrite (OnFailure_calls_ErrorCount _ _ _ _ _ Hlive). do 2 eexists.
    split; [reflexivity|]. split.
    + now rewrite LEC_OnFailure_seq_length, length_map.
    + intros other Hne. now rewrite lookup_insert_ne.
  - rewrite (OnFailure_calls_Duration _ _ _ _ Hlive). do 2 eexists.
    split; [reflexivity|]. split; [apply length_map | reflexivity].
Qed.

(** X11.  No call of the interface frees an object, changes its class or
    touches its criteria: after any run of constructions, clones and
    [OnFailure] calls, on any objects, an object that was live is live,
    of the same class, with the same [max_failures_], or the same
    [max_duration_] and [deadline_]. *)
Theorem X11_criteria_are_immutable
    (calls : list (Z * call)) (h h' : heap) (l : addr) (o : RetryPolicy)
    (Hlive : h !! l = Some o)
    (Hrun : exec_all IsPermanentFailure calls h = Some h') :
  exists o', h' !! l = Some o' /\ same_criteria o o'.
Proof.
  revert h o Hlive Hrun. induction calls as [|[now c] rest IH];
    intros h o Hlive Hrun; cbn [exec_all] in Hrun.
  - injection Hrun as <-. exists o. split; [assumption | apply same_criteria_refl].
  - destruct (exec IsPermanentFailure now c h) as [h1|] eqn:Hexec; [|discriminate].
    destruct (exec_same_criteria _ _ _ _ _ _ Hexec Hlive) as (o1 & Hl1 & Hsame1).
    destruct (IH _ _ Hl1 Hrun) as (o' & Hl' & Hsame').
    exists o'. split; [assumption | eapply same_criteria_trans; eassumption].
Qed.

End PointerRuns.

(** * The further properties on the sample instantiation *)

Section FurtherInstances.
Import Sample.

(** X1 at a budget of two and a run with three transient failures. *)
Lemma X1_witness :
  retries_granted
    (fst (LEC.OnFailure_seq IsPermanentFailure (LEC.ctor 2)
            [Transient; Permanent; Transient; Transient; Permanent])) = 2%nat.
Proof.
  refine (X1_retries_granted_is_the_budget IsPermanentFailure 2
            [Transient; Permanent; Transient; Transient; Permanent] _).
  vm_compute. discriminate.
Defined.

(** X3 at a policy that has counted one failure. *)
Lemma X3_witness :
  snd (LEC.OnFailure_seq IsPermanentFailure (LEC.mk 1 3)
         [Transient; Permanent; Transient]) = LEC.mk 3 3.
Proof.
  refine (proj1 (X3_counter_counts_the_transient_failures IsPermanentFailure
                   [Transient; Permanent; Transient] (LEC.mk 1 3) _)).
  vm_compute. split; discriminate.
Defined.

(** X4 at a budget of one: the second transient failure is refused, and
    so are the permanent and the transient failure after it. *)
Lemma X4_witness :
  fst (LEC.OnFailure_seq IsPermanentFailure (LEC.ctor 1)
         [Transient; Transient; Permanent; Transient]) =
    [true; false; false; false].
Proof.
  refine (X4_refusal_is_final IsPermanentFailure (LEC.ctor 1)
            [Transient] Transient [Permanent; Transient] _ _ eq_refl eq_refl).
  - vm_compute. split; discriminate.
  - vm_compute. discriminate.
Defined.

(** X6 at a policy with the deadline 1100. *)
Lemma X6_witness :
  OnFailure_calls IsPermanentFailure 1%positive
    [(1000, Transient); (1050, Transient); (1099, Transient)]
    {[1%positive := Duration (LD.mk 100 1100)]} =
    Some ([true; true; true], {[1%positive := Duration (LD.mk 100 1100)]}).
Proof.
  assert (Hlive : ({[1%positive := Duration (LD.mk 100 1100)]} : heap) !! 1%positive
                  = Some (Duration (LD.mk 100 1100))) by reflexivity.
  refine (X6_any_number_of_failures_before_the_deadline IsPermanentFailure
            1%positive [(1000, Transient); (1050, Transient); (1099, Transient)]
            _ _ Hlive _).
  repeat constructor.
Defined.

(** X7 at the same policy, refused at its deadline 1100. *)
Lemma X7_witness :
  OnFailure_calls IsPermanentFailure 1%positive
    [(1100, Transient); (1200, Permanent); (1300, Transient)]
    {[1%positive := Duration (LD.mk 100 1100)]} =
    Some ([false; false; false], {[1%positive := Duration (LD.mk 100 1100)]}).
Proof.
  assert (Hlive : ({[1%positive := Duration (LD.mk 100 1100)]} : heap) !! 1%positive
                  = Some (Duration (LD.mk 100 1100))) by reflexivity.
  refine (X7_expiry_is_final IsPermanentFailure 1%positive _ _ 1100 Transient
            [(1100, Transient); (1200, Permanent); (1300, Transient)]
            Hlive eq_refl _ _).
  - reflexivity.
  - repeat constructor; cbn; lia.
Defined.

(** X8 at a policy with no duration constructed at 1000 ms. *)
Lemma X8_witness :
  exists (this : addr) (h1 : heap),
    new_LimitedDurationRetryPolicy 1000000000 0 ∅ = Some (this, h1) /\
    OnFailure_calls IsPermanentFailure this
      [(1000000000, Transient); (1000000001, Transient)] h1 =
      Some ([false; false], h1).
Proof.
  refine (X8_no_duration_no_retry IsPermanentFailure 1000000000 0 ∅
            [(1000000000, Transient); (1000000001, Transient)] _ _ _ _).
  - lia.
  - vm_compute. split; discriminate.
  - vm_compute. split; discriminate.
  - repeat constructor; cbn; lia.
Defined.

(** X9 at a policy with 100 ms constructed at 1000 ms and cloned at
    1200 ms, for a failure at 1250 ms. *)
Lemma X9_witness :
  exists (copy : addr) (h' : heap),
    clone 1200000000 1%positive {[1%positive := Duration (LD.ctor 1000000000 100)]}
      = Some (copy, h') /\
    OnFailure IsPermanentFailure 1250000000 1%positive Transient h'
      = Some (false, h') /\
    OnFailure IsPermanentFailure 1250000000 copy Transient h' = Some (true, h') /\
    LD.OnFailure IsPermanentFailure 1250000000
      (LD.move_ctor 1200000000 (LD.ctor 1000000000 100)) Transient = true.
Proof.
  assert (Hlive : ({[1%positive := Duration (LD.ctor 1000000000 100)]} : heap)
                    !! 1%positive
                  = Some (Duration (LD.ctor 1000000000 100))) by reflexivity.
  refine (X9_clone_of_expired_policy_retries_again IsPermanentFailure
            _ 1%positive 1000000000 100 1200000000 1250000000 Transient
            Hlive _ _ _ _ _ eq_refl _).
  - lia.
  - vm_compute. split; discriminate.
  - vm_compute. split; discriminate.
  - vm_compute. split; discriminate.
  - vm_compute. discriminate.
  - vm_compute. split; [discriminate | reflexivity].
Defined.

(** X10 at a count-limited policy beside a duration-limited one. *)
Lemma X10_witness :
  exists (answers : list bool) (h' : heap),
    OnFailure_calls IsPermanentFailure 1%positive
      [(0, Transient); (1, Transient)]
      (<[2%positive := Duration (LD.ctor 0 100)]>
         {[1%positive := ErrorCount (LEC.ctor 1)]}) = Some (answers, h') /\
    length answers = 2%nat /\
    h' !! 2%positive = Some (Duration (LD.ctor 0 100)).
Proof.
  assert (Hlive : (<[2%positive := Duration (LD.ctor 0 100)]>
                     {[1%positive := ErrorCount (LEC.ctor 1)]} : heap) !! 1%positive
                  = Some (ErrorCount (LEC.ctor 1))) by reflexivity.
  destruct (X10_run_returns_and_writes_only_its_object IsPermanentFailure
              1%positive [(0, Transient); (1, Transient)] _ _ Hlive)
    as (answers & h' & Hrun & Hlen & Hframe).
  exists answers, h'. split; [exact Hrun|]. split; [exact Hlen|].
  rewrite Hframe by discriminate. reflexivity.
Defined.

(** X11 at a count-limited policy through two calls, a clone and a
    construction. *)
Lemma X11_witness :
  exists (h' : heap) (o' : RetryPolicy),
    exec_all IsPermanentFailure
      [(0, CallOnFailure 1%positive Transient); (1, CallClone 1%positive);
       (2, CallNewDuration 50); (3, CallOnFailure 1%positive Transient)]
      {[1%positive := ErrorCount (LEC.ctor 1)]} = Some h' /\
    h' !! 1%positive = Some o' /\
    same_criteria (ErrorCount (LEC.ctor 1)) o'.
Proof.
  assert (Hlive : ({[1%positive := ErrorCount (LEC.ctor 1)]} : heap) !! 1%positive
                  = Some (ErrorCount (LEC.ctor 1))) by reflexivity.
  destruct (exec_all IsPermanentFailure
              [(0, CallOnFailure 1%positive Transient); (1, CallClone 1%positive);
               (2, CallNewDuration 50); (3, CallOnFailure 1%positive Transient)]
              {[1%positive := ErrorCount (LEC.ctor 1)]}) as [h'|] eqn:Hrun;
    [|vm_compute in Hrun; discriminate].
  destruct (X11_criteria_are_immutable IsPermanentFailure _ _ _ _ _ Hlive Hrun)
    as (o' & Hl & Hsame).
  exists h', o'. repeat split; assumption.
Defined.

(** X12 at a budget of two and three transient failures among permanent
    ones. *)
Lemma X12_witness :
  answers_to_transient IsPermanentFailure
    (fst (LEC.OnFailure_seq IsPermanentFailure (LEC.ctor 2)
            [Permanent; Transient; Permanent; Transient; Transient]))
    [Permanent; Transient; Permanent; Transient; Transient] =
  [true; true; false].
Proof.
  refine (X12_answers_follow_the_transient_failures IsPermanentFailure 2
            [Permanent; Transient; Permanent; Transient; Transient] _).
  vm_compute. discriminate.
Defined.

End FurtherInstances.
